(** * tsodyks3_synapse: short-term plasticity connection of NEST

    A shallow embedding of [models/tsodyks3_synapse.h] and the properties
    of its two operations, [send] (one call per delivered spike) and
    [set_status] (configuration from a dictionary).

    Numbers.  The C++ fields are [double].  For [send], which needs
    the exponential, they are real numbers ([R] of the Standard
    Library): the statements about [send] are about the exact arithmetic
    of its formulas on finite values, not about their rounding, and a
    statement that depends on a quotient assumes its divisor is not
    zero.  [set_status] only stores and compares numbers; it is given
    twice, on real numbers, and in the module [Binary64] on IEEE binary64
    values, where a NaN makes every comparison false.  What holds of the
    real-number version only because real numbers have no NaN is stated
    on [Binary64]. *)

From Stdlib Require Import Floats.
From Stdlib Require Import Reals Lra ZArith.
From stdpp Require Import gmap strings.

#[local] Open Scope R_scope.

(** ** Comparisons of the source as decidable propositions *)

#[global] Instance Rlt_decision : RelDecision Rlt := Rlt_dec.
#[global] Instance Rgt_decision : RelDecision Rgt := Rgt_dec.
#[global] Instance Rle_decision : RelDecision Rle := Rle_dec.
#[global] Instance Rge_decision : RelDecision Rge := Rge_dec.

(** ** The connection object *)

(** The private data members of [tsodyks3_synapse], in declaration order. *)
Record tsodyks3_synapse : Type := mk_tsodyks3_synapse {
  weight_ : R;
  U_ : R;           (* unit increment of a facilitating synapse *)
  u_ : R;           (* dynamic value of probability of release *)
  x_ : R;           (* amount of available resources *)
  tau_rec_ : R;     (* [ms] time constant for recovery *)
  tau_fac_ : R;     (* [ms] time constant for facilitation *)
  t_lastspike_ : R  (* time point of last spike emitted *)
}.

(** Assignments to a single member; [set_weight] is the public member
    function of that name. *)
Definition set_weight (w : R) (s : tsodyks3_synapse) : tsodyks3_synapse :=
  mk_tsodyks3_synapse w (U_ s) (u_ s) (x_ s) (tau_rec_ s) (tau_fac_ s) (t_lastspike_ s).

Definition assign_U_ (v : R) (s : tsodyks3_synapse) : tsodyks3_synapse :=
  mk_tsodyks3_synapse (weight_ s) v (u_ s) (x_ s) (tau_rec_ s) (tau_fac_ s) (t_lastspike_ s).

Definition assign_u_ (v : R) (s : tsodyks3_synapse) : tsodyks3_synapse :=
  mk_tsodyks3_synapse (weight_ s) (U_ s) v (x_ s) (tau_rec_ s) (tau_fac_ s) (t_lastspike_ s).

Definition assign_x_ (v : R) (s : tsodyks3_synapse) : tsodyks3_synapse :=
  mk_tsodyks3_synapse (weight_ s) (U_ s) (u_ s) v (tau_rec_ s) (tau_fac_ s) (t_lastspike_ s).

Definition assign_tau_rec_ (v : R) (s : tsodyks3_synapse) : tsodyks3_synapse :=
  mk_tsodyks3_synapse (weight_ s) (U_ s) (u_ s) (x_ s) v (tau_fac_ s) (t_lastspike_ s).

Definition assign_tau_fac_ (v : R) (s : tsodyks3_synapse) : tsodyks3_synapse :=
  mk_tsodyks3_synapse (weight_ s) (U_ s) (u_ s) (x_ s) (tau_rec_ s) v (t_lastspike_ s).

Definition assign_t_lastspike_ (v : R) (s : tsodyks3_synapse) : tsodyks3_synapse :=
  mk_tsodyks3_synapse (weight_ s) (U_ s) (u_ s) (x_ s) (tau_rec_ s) (tau_fac_ s) v.

(** The constructor [tsodyks3_synapse()]: [u_] is initialised from [U_]. *)
Definition tsodyks3_synapse_ctor : tsodyks3_synapse :=
  let weight := 1.0 in
  let U := 0.5 in
  mk_tsodyks3_synapse weight U U 1.0 800.0 0.0 0.0.

(** The ranges the header documents for the members. *)
Definition in_unit_interval (v : R) : Prop := 0 <= v <= 1.

Record valid (s : tsodyks3_synapse) : Prop := mk_valid {
  valid_U : in_unit_interval (U_ s);
  valid_u : in_unit_interval (u_ s);
  valid_x : in_unit_interval (x_ s);
  valid_tau_rec : 0 < tau_rec_ s;
  valid_tau_fac : 0 <= tau_fac_ s
}.

(** ** Collaborators of [send] *)

(** Modelled from the spec: the event and the connection base class are
    declared outside this header.  The outbound event carries a receiver
    reference, a real weight, an integer delay in steps and an integer
    receiver port; its time stamp is read in milliseconds.  The base gives
    the target for a thread, the delay in steps and the receiver port. *)
Definition thread : Type := Z.
Definition Node : Type := Z.

Record Event : Type := mk_Event {
  stamp_ms : R;
  receiver : option Node;
  ev_weight : R;
  ev_delay_steps : Z;
  ev_rport : Z
}.

Record ConnectionBase : Type := mk_ConnectionBase {
  get_target : thread -> Node;
  get_delay_steps : Z;
  get_rport : Z
}.

Definition set_receiver (n : Node) (e : Event) : Event :=
  mk_Event (stamp_ms e) (Some n) (ev_weight e) (ev_delay_steps e) (ev_rport e).

Definition ev_set_weight (w : R) (e : Event) : Event :=
  mk_Event (stamp_ms e) (receiver e) w (ev_delay_steps e) (ev_rport e).

Definition set_delay_steps (d : Z) (e : Event) : Event :=
  mk_Event (stamp_ms e) (receiver e) (ev_weight e) d (ev_rport e).

Definition set_rport (p : Z) (e : Event) : Event :=
  mk_Event (stamp_ms e) (receiver e) (ev_weight e) (ev_delay_steps e) p.

(** ** [send]

    The body of [tsodyks3_synapse::send], statement by statement.  The
    result is the event as it is when [e()] delivers it, and the object
    after the call. *)
Definition send (cb : ConnectionBase) (e : Event) (t : thread)
    (s : tsodyks3_synapse) : Event * tsodyks3_synapse :=
  let target := get_target cb t in
  let t_spike := stamp_ms e in
  let h := t_spike - t_lastspike_ s in
  let x_decay := exp (- h / tau_rec_ s) in
  let u_decay := if decide (tau_fac_ s < 1.0e-10) then 0.0 else exp (- h / tau_fac_ s) in
  let s := assign_x_ (1 + (x_ s - 1) * x_decay) s in
  let s := assign_u_ (U_ s + (u_ s - U_ s) * u_decay) s in
  let s := assign_u_ (u_ s + U_ s * (1 - u_ s)) s in
  let e := set_receiver target e in
  let e := ev_set_weight (weight_ s * x_ s * u_ s) e in
  let e := set_delay_steps (get_delay_steps cb) e in
  let e := set_rport (get_rport cb) e in
  (* e() : the event is delivered here *)
  let s := assign_x_ (x_ s - u_ s * x_ s) s in
  let s := assign_t_lastspike_ t_spike s in
  (e, s).

(** Program points of [send], named after its locals: the two decay
    factors, the object after the two decay assignments, and the object
    after the facilitation increment. *)
Definition h_of (s : tsodyks3_synapse) (t_spike : R) : R :=
  t_spike - t_lastspike_ s.

Definition x_decay (s : tsodyks3_synapse) (t_spike : R) : R :=
  exp (- h_of s t_spike / tau_rec_ s).

Definition u_decay (s : tsodyks3_synapse) (t_spike : R) : R :=
  if decide (tau_fac_ s < 1.0e-10) then 0.0
  else exp (- h_of s t_spike / tau_fac_ s).

Definition send_decayed (s : tsodyks3_synapse) (t_spike : R) : tsodyks3_synapse :=
  let s1 := assign_x_ (1 + (x_ s - 1) * x_decay s t_spike) s in
  assign_u_ (U_ s1 + (u_ s1 - U_ s1) * u_decay s t_spike) s1.

Definition send_facilitated (s : tsodyks3_synapse) (t_spike : R) : tsodyks3_synapse :=
  let s2 := send_decayed s t_spike in
  assign_u_ (u_ s2 + U_ s2 * (1 - u_ s2)) s2.

(** Two reorderings of the body of [send], for comparison with it; they
    are not in the source.  The first depletes [x_] before the weight is
    computed, the second computes the weight before the facilitation
    increment of [u_].  Both return the weight they would attach to the
    event. *)
Definition weight_if_depleted_first (s : tsodyks3_synapse) (t_spike : R) : R :=
  let s2 := send_decayed s t_spike in
  let s3 := assign_u_ (u_ s2 + U_ s2 * (1 - u_ s2)) s2 in
  let s4 := assign_x_ (x_ s3 - u_ s3 * x_ s3) s3 in
  weight_ s4 * x_ s4 * u_ s4.

Definition weight_if_facilitated_last (s : tsodyks3_synapse) (t_spike : R) : R :=
  let s2 := send_decayed s t_spike in
  weight_ s2 * x_ s2 * u_ s2.

(** The event-delivery collaborator calls [send] once per spike; the
    list holds the delivered event and the object after each call. *)
Fixpoint deliver (cb : ConnectionBase) (t : thread) (es : list Event)
    (s : tsodyks3_synapse) : list (Event * tsodyks3_synapse) :=
  match es with
  | [] => []
  | e :: es' => let r := send cb e t s in r :: deliver cb t es' (snd r)
  end.

(** Spike stamps that never go back in time, starting from [t0]. *)
Fixpoint nondecreasing_from (t0 : R) (es : list Event) : Prop :=
  match es with
  | [] => True
  | e :: es' => t0 <= stamp_ms e /\ nondecreasing_from (stamp_ms e) es'
  end.

(** An incoming spike event with stamp [t] and nothing else set. *)
Definition spike_at (t : R) : Event := mk_Event t None 0 0 0.

(** ** Collaborators of [set_status] *)

(** Modelled from the spec: the dictionary type and the key names are
    declared outside this header.  The dictionary is an opaque key-value
    structure with optional named overrides; the keys are the parameter
    names of the user documentation in the header. *)
Abbreviation DictionaryDatum := (gmap string R).

Module names.
Definition weight : string := "weight".
Definition dU : string := "U".
Definition u : string := "u".
Definition tau_rec : string := "tau_rec".
Definition tau_fac : string := "tau_fac".
Definition x : string := "x".
End names.

(** Exceptions thrown by this class. *)
Inductive exn : Type :=
  | BadProperty (msg : string).

(** A member function that may throw: it returns normally or throws, and
    in both cases leaves the object as the assignments executed so far
    made it. *)
Inductive completion (A : Type) : Type :=
  | Normal (a : A)
  | Thrown (e : exn).
Arguments Normal {A} a.
Arguments Thrown {A} e.

Definition M (A : Type) : Type :=
  tsodyks3_synapse -> completion A * tsodyks3_synapse.

#[global] Instance M_ret : MRet M := λ A a s, (Normal a, s).

#[global] Instance M_bind : MBind M := λ A B f m s,
  match m s with
  | (Normal a, s') => f a s'
  | (Thrown e, s') => (Thrown e, s')
  end.

Definition throw {A : Type} (e : exn) : M A := λ s, (Thrown e, s).

Definition this : M tsodyks3_synapse := λ s, (Normal s, s).

(** [updateValue< double >( d, n, member )]: assigns the entry of [d]
    under [n] to the member when there is one, and tells whether it did. *)
Definition updateValue (d : DictionaryDatum) (n : string)
    (assign : R -> tsodyks3_synapse -> tsodyks3_synapse) : M bool :=
  λ s, match d !! n with
       | Some v => (Normal true, assign v s)
       | None => (Normal false, s)
       end.

(** [if ( c ) { throw e; }] *)
Definition throw_if (c : bool) (e : exn) : M unit :=
  if c then throw e else mret ().

(** ** [set_status]

    The call [ConnectionBase::set_status( d, cm )] that opens the body
    works on the data of the base class only (delay and receiver port),
    none of which is part of [tsodyks3_synapse]; the model is the rest
    of the body, after that call has returned. *)
Definition set_status (d : DictionaryDatum) : M unit :=
  updateValue d names.weight set_weight ;;
  updateValue d names.dU assign_U_ ;;
  s ← this;
  throw_if (bool_decide (U_ s > 1.0 ∨ U_ s < 0.0))
    (BadProperty "U must be in [0,1].") ;;
  updateValue d names.u assign_u_ ;;
  s ← this;
  throw_if (bool_decide (u_ s > 1.0 ∨ u_ s < 0.0))
    (BadProperty "u must be in [0,1].") ;;
  updateValue d names.tau_rec assign_tau_rec_ ;;
  s ← this;
  throw_if (bool_decide (tau_rec_ s <= 0.0))
    (BadProperty "tau_rec must be > 0.") ;;
  updateValue d names.tau_fac assign_tau_fac_ ;;
  s ← this;
  throw_if (bool_decide (tau_fac_ s < 0.0))
    (BadProperty "tau_fac must be >= 0.") ;;
  updateValue d names.x assign_x_ ;;
  s ← this;
  throw_if (bool_decide (x_ s > 1.0 ∨ x_ s < 0.0))
    (BadProperty "x must be in [0,1].").

(** The value a member holds once the entry of [d] for its key, if any,
    has been assigned to it. *)
Definition overridden (d : DictionaryDatum) (n : string) (old : R) : R :=
  default old (d !! n).

(** ** [get_status]

    Modelled from the spec: the status dictionary holds named real and
    integer fields; [def< T >( d, n, v )] stores [v] under [n], replacing
    what was there.  The key of [names::size_of] is declared outside this
    header.  [sizeof( *this )] depends on the memory layout and is an
    argument.  As for [set_status], the opening call
    [ConnectionBase::get_status( d )] writes entries of the base class
    only and is not part of the model. *)
Inductive Token : Type :=
  | DoubleDatum (v : R)
  | IntegerDatum (n : Z).

Definition names_size_of : string := "sizeof".

Definition def {A : Type} (wrap : A -> Token) (d : gmap string Token)
    (n : string) (v : A) : gmap string Token :=
  <[n := wrap v]> d.

Definition get_status (sizeof_this : Z) (d : gmap string Token)
    (s : tsodyks3_synapse) : gmap string Token :=
  let d := def DoubleDatum d names.weight (weight_ s) in
  let d := def DoubleDatum d names.dU (U_ s) in
  let d := def DoubleDatum d names.u (u_ s) in
  let d := def DoubleDatum d names.tau_rec (tau_rec_ s) in
  let d := def DoubleDatum d names.tau_fac (tau_fac_ s) in
  let d := def DoubleDatum d names.x (x_ s) in
  def IntegerDatum d names_size_of sizeof_this.

(** The real-valued entries of a status dictionary, as the dictionary
    [set_status] reads its overrides from. *)
Definition double_entries (d : gmap string Token) : gmap string R :=
  omap (λ tok, match tok with
               | DoubleDatum v => Some v
               | IntegerDatum _ => None
               end) d.

(** The keys [set_status] and [get_status] use. *)
Definition parameter_keys : list string :=
  [names.weight; names.dU; names.u; names.tau_rec; names.tau_fac; names.x].

(** * The same code in double precision

    [set_status] only stores and compares its numbers, so it can be
    embedded on IEEE binary64 values as they are, with NaN and the
    infinities ([float] of the kernel, whose comparisons are false as
    soon as one side is NaN).  [send] needs [std::exp], which is not
    available on [float]; of [send] the module has the two decay
    assignments, as functions of the decay factors. *)
Module Binary64.
#[local] Open Scope float_scope.

Record tsodyks3_synapse : Type := mk_tsodyks3_synapse {
  weight_ : float;
  U_ : float;
  u_ : float;
  x_ : float;
  tau_rec_ : float;
  tau_fac_ : float;
  t_lastspike_ : float
}.

Definition set_weight (w : float) (s : tsodyks3_synapse) : tsodyks3_synapse :=
  mk_tsodyks3_synapse w (U_ s) (u_ s) (x_ s) (tau_rec_ s) (tau_fac_ s) (t_lastspike_ s).

Definition assign_U_ (v : float) (s : tsodyks3_synapse) : tsodyks3_synapse :=
  mk_tsodyks3_synapse (weight_ s) v (u_ s) (x_ s) (tau_rec_ s) (tau_fac_ s) (t_lastspike_ s).

Definition assign_u_ (v : float) (s : tsodyks3_synapse) : tsodyks3_synapse :=
  mk_tsodyks3_synapse (weight_ s) (U_ s) v (x_ s) (tau_rec_ s) (tau_fac_ s) (t_lastspike_ s).

Definition assign_x_ (v : float) (s : tsodyks3_synapse) : tsodyks3_synapse :=
  mk_tsodyks3_synapse (weight_ s) (U_ s) (u_ s) v (tau_rec_ s) (tau_fac_ s) (t_lastspike_ s).

Definition assign_tau_rec_ (v : float) (s : tsodyks3_synapse) : tsodyks3_synapse :=
  mk_tsodyks3_synapse (weight_ s) (U_ s) (u_ s) (x_ s) v (tau_fac_ s) (t_lastspike_ s).

Definition assign_tau_fac_ (v : float) (s : tsodyks3_synapse) : tsodyks3_synapse :=
  mk_tsodyks3_synapse (weight_ s) (U_ s) (u_ s) (x_ s) (tau_rec_ s) v (t_lastspike_ s).

(** The constructor [tsodyks3_synapse()]. *)
Definition tsodyks3_synapse_ctor : tsodyks3_synapse :=
  let weight := 1.0 in
  let U := 0.5 in
  mk_tsodyks3_synapse weight U U 1.0 800.0 0.0 0.0.

(** [a > b] and [a <= b] of C++ on doubles. *)
Definition gtb (a b : float) : bool := b <? a.
Infix ">?" := gtb (at level 70, no associativity) : float_scope.

(** The ranges of the header, as double comparisons: a NaN is in none. *)
Definition in_unit_interval (v : float) : bool := (0 <=? v) && (v <=? 1).

Definition valid (s : tsodyks3_synapse) : bool :=
  in_unit_interval (U_ s) && in_unit_interval (u_ s) && in_unit_interval (x_ s)
  && (0 <? tau_rec_ s) && (0 <=? tau_fac_ s).

(** What the five checks of [set_status] let through: each checked
    member is in its range or is a NaN. *)
Definition passes_checks (s : tsodyks3_synapse) : bool :=
  (is_nan (U_ s) || in_unit_interval (U_ s))
  && (is_nan (u_ s) || in_unit_interval (u_ s))
  && (is_nan (tau_rec_ s) || (0 <? tau_rec_ s))
  && (is_nan (tau_fac_ s) || (0 <=? tau_fac_ s))
  && (is_nan (x_ s) || in_unit_interval (x_ s)).

Definition M (A : Type) : Type :=
  tsodyks3_synapse -> completion A * tsodyks3_synapse.

#[local] Instance M_ret : MRet M := λ A a s, (Normal a, s).

#[local] Instance M_bind : MBind M := λ A B f m s,
  match m s with
  | (Normal a, s') => f a s'
  | (Thrown e, s') => (Thrown e, s')
  end.

Definition throw {A : Type} (e : exn) : M A := λ s, (Thrown e, s).

Definition this : M tsodyks3_synapse := λ s, (Normal s, s).

Definition updateValue (d : gmap string float) (n : string)
    (assign : float -> tsodyks3_synapse -> tsodyks3_synapse) : M bool :=
  λ s, match d !! n with
       | Some v => (Normal true, assign v s)
       | None => (Normal false, s)
       end.

Definition throw_if (c : bool) (e : exn) : M unit :=
  if c then throw e else mret ().

(** [set_status], after the call to the base class has returned. *)
Definition set_status (d : gmap string float) : M unit :=
  updateValue d names.weight set_weight ;;
  updateValue d names.dU assign_U_ ;;
  s ← this;
  throw_if ((U_ s >? 1.0) || (U_ s <? 0.0))
    (BadProperty "U must be in [0,1].") ;;
  updateValue d names.u assign_u_ ;;
  s ← this;
  throw_if ((u_ s >? 1.0) || (u_ s <? 0.0))
    (BadProperty "u must be in [0,1].") ;;
  updateValue d names.tau_rec assign_tau_rec_ ;;
  s ← this;
  throw_if (tau_rec_ s <=? 0.0)
    (BadProperty "tau_rec must be > 0.") ;;
  updateValue d names.tau_fac assign_tau_fac_ ;;
  s ← this;
  throw_if (tau_fac_ s <? 0.0)
    (BadProperty "tau_fac must be >= 0.") ;;
  updateValue d names.x assign_x_ ;;
  s ← this;
  throw_if ((x_ s >? 1.0) || (x_ s <? 0.0))
    (BadProperty "x must be in [0,1].").

Definition overridden (d : gmap string float) (n : string) (old : float) : float :=
  default old (d !! n).


Definition send_decayed (x_decay u_decay : float) (s : tsodyks3_synapse)
    : tsodyks3_synapse :=
  let s := assign_x_ (1.0 + (x_ s - 1.0) * x_decay) s in
  assign_u_ (U_ s + (u_ s - U_ s) * u_decay) s.


End Binary64.

(** * Properties of [send] *)

(** [send] goes through the named program points. *)
Lemma send_program_points cb e t s :
  send cb e t s =
    let s3 := send_facilitated s (stamp_ms e) in
    (set_rport (get_rport cb)
       (set_delay_steps (get_delay_steps cb)
          (ev_set_weight (weight_ s3 * x_ s3 * u_ s3)
             (set_receiver (get_target cb t) e))),
     assign_t_lastspike_ (stamp_ms e) (assign_x_ (x_ s3 - u_ s3 * x_ s3) s3)).
Proof. reflexivity. Qed.

Section decay_factors.
Variables (s : tsodyks3_synapse) (t_spike : R).
Hypothesis Hrec : 0 < tau_rec_ s.
Hypothesis Hord : t_lastspike_ s <= t_spike.

Lemma exp_nonpos_le_1 (y : R) : y <= 0 -> 0 < exp y <= 1.
Proof.
  intros Hy. split; [apply exp_pos |].
  destruct (Req_dec y 0) as [-> | Hne]; [rewrite exp_0; lra |].
  left. rewrite <- exp_0. apply exp_increasing. lra.
Qed.

Lemma quotient_nonpos (tau : R) : 0 < tau -> - h_of s t_spike / tau <= 0.
Proof.
  intros Htau. unfold h_of, Rdiv.
  assert (0 < / tau) by (apply Rinv_0_lt_compat; exact Htau).
  nra.
Qed.

Lemma x_decay_range : 0 < x_decay s t_spike <= 1.
Proof. apply exp_nonpos_le_1, quotient_nonpos, Hrec. Qed.

Lemma u_decay_range : 0 <= u_decay s t_spike <= 1.
Proof.
  unfold u_decay. case_decide as Hsmall; [lra |].
  assert (0 < tau_fac_ s) as Hpos by lra.
  pose proof (exp_nonpos_le_1 _ (quotient_nonpos _ Hpos)). lra.
Qed.
End decay_factors.

(** The arithmetic of one call: convex combinations and a depletion
    factor in [0,1]. *)
Lemma unit_interval_step (U u x dx du : R) :
  0 <= U <= 1 -> 0 <= u <= 1 -> 0 <= x <= 1 -> 0 <= dx <= 1 -> 0 <= du <= 1 ->
  let x' := 1 + (x - 1) * dx in
  let u' := U + (u - U) * du in
  let u'' := u' + U * (1 - u') in
  0 <= u'' <= 1 /\ 0 <= x' - u'' * x' <= 1.
Proof.
  intros HU Hu Hx Hdx Hdu x' u' u''.
  assert (0 <= x' <= 1) as Hx' by (subst x'; nra).
  assert (0 <= u' <= 1) as Hu' by (subst u'; nra).
  assert (0 <= u'' <= 1) as Hu'' by (subst u''; nra).
  clearbody x' u' u''. split; [lra | nra].
Qed.

(** One call keeps a valid object valid. *)
Lemma send_valid cb e t s :
  valid s -> t_lastspike_ s <= stamp_ms e -> valid (snd (send cb e t s)).
Proof.
  intros [HU Hu Hx Hrec Hfac] Hord.
  pose proof (x_decay_range s (stamp_ms e) Hrec Hord) as Hxd.
  pose proof (u_decay_range s (stamp_ms e) Hord) as Hud.
  assert (0 <= x_decay s (stamp_ms e) <= 1) as Hxd' by lra.
  destruct (unit_interval_step _ _ _ _ _ HU Hu Hx Hxd' Hud) as [Hu'' Hx''].
  rewrite send_program_points.
  split; [exact HU | exact Hu'' | exact Hx'' | exact Hrec | exact Hfac].
Qed.

(** C1. Starting from an object with valid parameters ([U_], [u_], [x_]
    in [0,1], [tau_rec_ > 0], [tau_fac_ >= 0]) and delivering spikes whose
    stamps never decrease (the first one not before [t_lastspike_]), the
    members [u_] and [x_] are in [0,1] after every call of [send]; the
    values are those of the formulas, [send] has no clamping step. *)
Theorem send_keeps_u_x_in_unit_interval cb t es s :
  valid s ->
  nondecreasing_from (t_lastspike_ s) es ->
  Forall (λ r, in_unit_interval (u_ (snd r)) /\ in_unit_interval (x_ (snd r)))
         (deliver cb t es s).
Proof.
  revert s. induction es as [| e es IH]; intros s Hv Hnd; cbn.
  - constructor.
  - destruct Hnd as [Hle Hnd].
    pose proof (send_valid cb e t s Hv Hle) as Hv'.
    constructor.
    + split; [apply (valid_u _ Hv') | apply (valid_x _ Hv')].
    + apply IH; [exact Hv' |]. exact Hnd.
Qed.

Lemma send_keeps_u_x_in_unit_interval_witness :
  let cb := mk_ConnectionBase (λ _, 7%Z) 1 0 in
  let es := [spike_at 0; spike_at 800; spike_at 800; spike_at 812.5] in
  valid tsodyks3_synapse_ctor /\
  nondecreasing_from (t_lastspike_ tsodyks3_synapse_ctor) es /\
  Forall (λ r, in_unit_interval (u_ (snd r)) /\ in_unit_interval (x_ (snd r)))
         (deliver cb 0%Z es tsodyks3_synapse_ctor).
Proof.
  intros cb es.
  assert (valid tsodyks3_synapse_ctor) as Hv
    by (split; unfold in_unit_interval; cbn; lra).
  assert (nondecreasing_from (t_lastspike_ tsodyks3_synapse_ctor) es) as Hnd
    by (cbn; lra).
  split; [exact Hv |]. split; [exact Hnd |].
  exact (send_keeps_u_x_in_unit_interval cb 0%Z es tsodyks3_synapse_ctor Hv Hnd).
Defined.

(** ** Bounds on [exp (-1)] *)

Lemma exp_INR_mult (x : R) (n : nat) : exp (INR n * x) = exp x ^ n.
Proof.
  induction n as [| n IH].
  - cbn. rewrite Rmult_0_l. apply exp_0.
  - rewrite S_INR, Rmult_plus_distr_r, Rmult_1_l, exp_plus, IH. cbn. ring.
Qed.

(** A rational lower bound of a power, decided on integers. *)
Lemma ratio_pow_le (a b c d : Z) (n : nat) (y : R) :
  (0 < b)%Z -> (0 < d)%Z -> (0 <= a)%Z ->
  (c * b ^ Z.of_nat n <= d * a ^ Z.of_nat n)%Z ->
  IZR a / IZR b <= y ->
  IZR c / IZR d <= y ^ n.
Proof.
  intros Hb Hd Ha Hz Hy.
  assert (0 < IZR b) as Hb' by (apply IZR_lt; exact Hb).
  assert (0 < IZR d) as Hd' by (apply IZR_lt; exact Hd).
  assert (0 <= IZR a / IZR b) as Hq.
  { apply IZR_le in Ha.
    apply Rmult_le_pos; [exact Ha | left; apply Rinv_0_lt_compat; exact Hb']. }
  apply Rle_trans with ((IZR a / IZR b) ^ n); [| apply pow_incr; split; assumption].
  unfold Rdiv at 2. rewrite Rpow_mult_distr, pow_inv, !pow_IZR.
  assert (0 < IZR (b ^ Z.of_nat n)) as Hbn.
  { apply IZR_lt, Z.pow_pos_nonneg; lia. }
  apply IZR_le in Hz. rewrite !mult_IZR in Hz.
  apply (Rmult_le_reg_r (IZR d * IZR (b ^ Z.of_nat n))); [nra |].
  field_simplify; lra.
Qed.

Lemma INR_1024 : INR 1024 = 1024.
Proof. rewrite INR_IZR_INZ. f_equal. Qed.

(** From [1 + y <= exp y] at [y = -1/1024] and [y = 1/1024]. *)
Lemma exp_minus_1_bounds : 0.3672 <= exp (-1) <= 0.3688.
Proof.
  split.
  - replace (-1) with (INR 1024 * (-1 / 1024)) by (rewrite INR_1024; lra).
    rewrite exp_INR_mult.
    replace 0.3672 with (IZR 3672 / IZR 10000) by lra.
    apply (ratio_pow_le 1023 1024); [lia | lia | lia | |].
    + vm_compute. discriminate.
    + pose proof (exp_ineq1_le (-1 / 1024)). lra.
  - assert (2.7169 <= exp 1) as He.
    { replace 1 with (INR 1024 * (1 / 1024)) at 1 by (rewrite INR_1024; lra).
      rewrite exp_INR_mult.
      replace 2.7169 with (IZR 27169 / IZR 10000) by lra.
      apply (ratio_pow_le 1025 1024); [lia | lia | lia | |].
      + vm_compute. discriminate.
      + pose proof (exp_ineq1_le (1 / 1024)). lra. }
    replace (-1) with (- (1)) by lra. rewrite exp_Ropp.
    assert (/ exp 1 <= / 2.7169) by (apply Rinv_le_contravar; lra).
    lra.
Qed.

(** ** The decay factors at particular arguments *)

(** Reads members of explicit objects without touching the numerals. *)
Ltac read_members :=
  unfold h_of, spike_at, set_weight, assign_U_, assign_u_, assign_x_,
    assign_tau_rec_, assign_tau_fac_, assign_t_lastspike_,
    set_receiver, ev_set_weight, set_delay_steps, set_rport;
  cbn [weight_ U_ u_ x_ tau_rec_ tau_fac_ t_lastspike_
       stamp_ms receiver ev_weight ev_delay_steps ev_rport fst snd].

Lemma u_decay_small s t_spike :
  tau_fac_ s < 1.0e-10 -> u_decay s t_spike = 0.
Proof. intros H. unfold u_decay. case_decide; [lra | contradiction]. Qed.

Lemma u_decay_large s t_spike :
  ~ tau_fac_ s < 1.0e-10 ->
  u_decay s t_spike = exp (- (t_spike - t_lastspike_ s) / tau_fac_ s).
Proof. intros H. unfold u_decay. case_decide; [contradiction | reflexivity]. Qed.

Lemma exp_quotient_0 (h tau : R) : h = 0 -> exp (- h / tau) = 1.
Proof. intros ->. replace (- 0 / tau) with 0 by (unfold Rdiv; ring). apply exp_0. Qed.

Lemma exp_quotient_1 (h tau : R) : h = tau -> tau <> 0 -> exp (- h / tau) = exp (-1).
Proof. intros -> Hne. f_equal. field. exact Hne. Qed.

(** The members and the delivered weight after one call, in terms of
    the members before it and the two decay factors. *)
Lemma send_result cb e t s :
  let x1 := 1 + (x_ s - 1) * x_decay s (stamp_ms e) in
  let u1 := U_ s + (u_ s - U_ s) * u_decay s (stamp_ms e) in
  let u2 := u1 + U_ s * (1 - u1) in
  ev_weight (fst (send cb e t s)) = weight_ s * x1 * u2 /\
  x_ (snd (send cb e t s)) = x1 - u2 * x1 /\
  u_ (snd (send cb e t s)) = u2 /\
  t_lastspike_ (snd (send cb e t s)) = stamp_ms e.
Proof. repeat split. Qed.

Lemma reordered_weights s t_spike :
  let x1 := 1 + (x_ s - 1) * x_decay s t_spike in
  let u1 := U_ s + (u_ s - U_ s) * u_decay s t_spike in
  let u2 := u1 + U_ s * (1 - u1) in
  weight_if_depleted_first s t_spike = weight_ s * (x1 - u2 * x1) * u2 /\
  weight_if_facilitated_last s t_spike = weight_ s * x1 * u1.
Proof. split; reflexivity. Qed.

Lemma send_state cb e t s :
  let x1 := 1 + (x_ s - 1) * x_decay s (stamp_ms e) in
  let u1 := U_ s + (u_ s - U_ s) * u_decay s (stamp_ms e) in
  let u2 := u1 + U_ s * (1 - u1) in
  snd (send cb e t s) =
    mk_tsodyks3_synapse (weight_ s) (U_ s) u2 (x1 - u2 * x1)
      (tau_rec_ s) (tau_fac_ s) (stamp_ms e).
Proof. reflexivity. Qed.

(** C2. From the default-constructed object, a spike at [t = 0] is
    delivered with weight 0.75 and leaves [x_ = 0.25], [u_ = 0.75],
    [t_lastspike_ = 0]; a second spike at [t = 800] is then delivered with
    weight [0.75 * (1 + (0.25 - 1) * exp (-1))], which is 0.543 to three
    decimals, and leaves [x_] at 0.181 to three decimals and [u_ = 0.75]. *)
Theorem default_spikes_at_0_and_800 cb t :
  let r1 := send cb (spike_at 0) t tsodyks3_synapse_ctor in
  let r2 := send cb (spike_at 800) t (snd r1) in
  tsodyks3_synapse_ctor = mk_tsodyks3_synapse 1 0.5 0.5 1 800 0 0 /\
  ev_weight (fst r1) = 0.75 /\
  snd r1 = mk_tsodyks3_synapse 1 0.5 0.75 0.25 800 0 0 /\
  ev_weight (fst r2) = 0.75 * (1 + (0.25 - 1) * exp (-1)) /\
  Rabs (ev_weight (fst r2) - 0.543) < 0.0005 /\
  Rabs (x_ (snd r2) - 0.181) < 0.0005 /\
  u_ (snd r2) = 0.75 /\
  t_lastspike_ (snd r2) = 800.
Proof.
  intros r1 r2.
  assert (tsodyks3_synapse_ctor = mk_tsodyks3_synapse 1 0.5 0.5 1 800 0 0) as Hctor.
  { unfold tsodyks3_synapse_ctor. cbv zeta. f_equal; lra. }
  set (s0 := mk_tsodyks3_synapse 1 0.5 0.5 1 800 0 0) in *.
  set (s1 := mk_tsodyks3_synapse 1 0.5 0.75 0.25 800 0 0).
  assert (u_decay s0 0 = 0) as Hud0 by (apply u_decay_small; subst s0; read_members; lra).
  assert (x_decay s0 0 = 1) as Hxd0 by (apply exp_quotient_0; subst s0; read_members; lra).
  assert (u_decay s1 800 = 0) as Hud1 by (apply u_decay_small; subst s1; read_members; lra).
  assert (x_decay s1 800 = exp (-1)) as Hxd1
    by (apply exp_quotient_1; subst s1; read_members; lra).
  assert (snd r1 = s1) as Hs1.
  { subst r1. rewrite Hctor, send_state. change (stamp_ms (spike_at 0)) with 0.
    rewrite Hud0, Hxd0. subst s0 s1. cbn [weight_ U_ u_ x_ tau_rec_ tau_fac_].
    f_equal; lra. }
  assert (ev_weight (fst r1) = 0.75) as Hw1.
  { subst r1. rewrite Hctor.
    destruct (send_result cb (spike_at 0) t s0) as (-> & _).
    change (stamp_ms (spike_at 0)) with 0.
    rewrite Hud0, Hxd0. subst s0. cbn [weight_ U_ u_ x_]. lra. }
  destruct (send_result cb (spike_at 800) t s1) as (Hw2 & Hx2 & Hu2 & Ht2).
  change (stamp_ms (spike_at 800)) with 800 in Hw2, Hx2, Hu2, Ht2.
  rewrite Hud1, Hxd1 in Hw2, Hx2. rewrite Hud1 in Hu2.
  subst s1. cbn [weight_ U_ u_ x_] in Hw2, Hx2, Hu2.
  pose proof exp_minus_1_bounds as Hexp.
  subst r2. rewrite Hs1, Hw2, Hx2, Hu2, Ht2.
  split; [exact Hctor |]. split; [exact Hw1 |]. split; [reflexivity |].
  split; [lra |]. split; [apply Rabs_def1; lra |].
  split; [apply Rabs_def1; lra |]. split; lra.
Qed.

(** C3. The weight attached to the delivered event is
    [weight_ * x * u] with [u] after the facilitation increment and [x]
    after the decay but before the depletion; the depletion
    [x = x - u * x] comes after it, then [t_lastspike_] becomes the stamp
    of the spike.  The order matters: on the default-constructed object
    and a spike at [t = 0], depleting first or computing the weight
    before the facilitation increment gives another weight. *)
Theorem send_weight_before_depletion cb e t s :
  let x1 := 1 + (x_ s - 1) * x_decay s (stamp_ms e) in
  let u1 := U_ s + (u_ s - U_ s) * u_decay s (stamp_ms e) in
  let u2 := u1 + U_ s * (1 - u1) in
  (ev_weight (fst (send cb e t s)) = weight_ s * x1 * u2 /\
   x_ (snd (send cb e t s)) = x1 - u2 * x1 /\
   u_ (snd (send cb e t s)) = u2 /\
   t_lastspike_ (snd (send cb e t s)) = stamp_ms e) /\
  (ev_weight (fst (send cb (spike_at 0) t tsodyks3_synapse_ctor)) = 0.75 /\
   weight_if_depleted_first tsodyks3_synapse_ctor 0 = 0.1875 /\
   weight_if_facilitated_last tsodyks3_synapse_ctor 0 = 0.5).
Proof.
  split; [apply send_result |].
  assert (u_decay tsodyks3_synapse_ctor 0 = 0) as Hud
    by (apply u_decay_small; unfold tsodyks3_synapse_ctor; read_members; lra).
  assert (x_decay tsodyks3_synapse_ctor 0 = 1) as Hxd
    by (apply exp_quotient_0; unfold tsodyks3_synapse_ctor; read_members; lra).
  destruct (send_result cb (spike_at 0) t tsodyks3_synapse_ctor) as (Hw & _).
  destruct (reordered_weights tsodyks3_synapse_ctor 0) as [Hd Hf].
  rewrite Hw, Hd, Hf. change (stamp_ms (spike_at 0)) with 0.
  rewrite Hud, Hxd. unfold tsodyks3_synapse_ctor. cbv zeta.
  cbn [weight_ U_ u_ x_]. repeat split; lra.
Qed.





(** C6. [u_decay] is 0 when [tau_fac_ < 1.0e-10] and
    [exp (- h / tau_fac_)] otherwise, so the quotient is only formed with
    a divisor of at least [1.0e-10].  With [tau_fac_ = 0] the decay step
    sets [u_] to [U_] and the call leaves [u_ = U_ + U_ * (1 - U_)],
    whatever [u_] was before. *)
Theorem u_decay_threshold cb e t s :
  (tau_fac_ s < 1.0e-10 -> u_decay s (stamp_ms e) = 0) /\
  (~ tau_fac_ s < 1.0e-10 ->
     1.0e-10 <= tau_fac_ s /\
     u_decay s (stamp_ms e) = exp (- (stamp_ms e - t_lastspike_ s) / tau_fac_ s)) /\
  (tau_fac_ s = 0 ->
     forall v : R,
       u_ (send_decayed (assign_u_ v s) (stamp_ms e)) = U_ s /\
       u_ (snd (send cb e t (assign_u_ v s))) = U_ s + U_ s * (1 - U_ s)).
Proof.
  split; [apply u_decay_small |].
  split.
  - intros Hfac. split; [apply Rnot_lt_le; exact Hfac | apply u_decay_large; exact Hfac].
  - intros Hfac v.
    assert (u_decay (assign_u_ v s) (stamp_ms e) = 0) as Hud
      by (apply u_decay_small; read_members; lra).
    rewrite send_program_points. unfold send_facilitated, send_decayed.
    cbv zeta. rewrite Hud. read_members. split; ring.
Qed.

Lemma u_decay_threshold_witness :
  let cb := mk_ConnectionBase (λ _, 7%Z) 1 0 in
  let s := mk_tsodyks3_synapse 2 0.25 0.9 0.5 800 0 100 in
  u_decay s 130 = 0 /\
  u_ (send_decayed s 130) = 0.25 /\
  u_ (snd (send cb (spike_at 130) 0%Z s)) = 0.25 + 0.25 * (1 - 0.25).
Proof.
  intros cb s.
  assert (tau_fac_ s < 1.0e-10) as Hsmall by (subst s; read_members; lra).
  assert (tau_fac_ s = 0) as Hzero by reflexivity.
  destruct (u_decay_threshold cb (spike_at 130) 0%Z s) as (H0 & _ & Hreset).
  destruct (Hreset Hzero 0.9) as [Hd Hs].
  split; [exact (H0 Hsmall) |]. split; [exact Hd | exact Hs].
Defined.

(** C9. [send] assigns to [u_], [x_] and [t_lastspike_] only: the
    members [weight_], [U_], [tau_rec_] and [tau_fac_] are the same
    before and after every call. *)
Theorem send_frame cb e t s :
  weight_ (snd (send cb e t s)) = weight_ s /\
  U_ (snd (send cb e t s)) = U_ s /\
  tau_rec_ (snd (send cb e t s)) = tau_rec_ s /\
  tau_fac_ (snd (send cb e t s)) = tau_fac_ s.
Proof. repeat split. Qed.

(** * Properties of [set_status] *)

(** The body of [set_status] as one case analysis on the values the
    members hold after their assignment from [d]: the first failing
    check decides the exception, and the members assigned after it keep
    the values of [s]. *)
Lemma set_status_cases d s :
  let w := overridden d names.weight (weight_ s) in
  let U := overridden d names.dU (U_ s) in
  let u := overridden d names.u (u_ s) in
  let tr := overridden d names.tau_rec (tau_rec_ s) in
  let tf := overridden d names.tau_fac (tau_fac_ s) in
  let x := overridden d names.x (x_ s) in
  let tl := t_lastspike_ s in
  set_status d s =
    if bool_decide (U > 1.0 ∨ U < 0.0) then
      (Thrown (BadProperty "U must be in [0,1]."),
       mk_tsodyks3_synapse w U (u_ s) (x_ s) (tau_rec_ s) (tau_fac_ s) tl)
    else if bool_decide (u > 1.0 ∨ u < 0.0) then
      (Thrown (BadProperty "u must be in [0,1]."),
       mk_tsodyks3_synapse w U u (x_ s) (tau_rec_ s) (tau_fac_ s) tl)
    else if bool_decide (tr <= 0.0) then
      (Thrown (BadProperty "tau_rec must be > 0."),
       mk_tsodyks3_synapse w U u (x_ s) tr (tau_fac_ s) tl)
    else if bool_decide (tf < 0.0) then
      (Thrown (BadProperty "tau_fac must be >= 0."),
       mk_tsodyks3_synapse w U u (x_ s) tr tf tl)
    else if bool_decide (x > 1.0 ∨ x < 0.0) then
      (Thrown (BadProperty "x must be in [0,1]."),
       mk_tsodyks3_synapse w U u x tr tf tl)
    else
      (Normal (), mk_tsodyks3_synapse w U u x tr tf tl).
Proof.
  destruct s as [w0 U0 u0 x0 tr0 tf0 tl0].
  unfold set_status, overridden, updateValue, mbind, M_bind, this, throw_if,
    throw, mret, M_ret.
  cbn [weight_ U_ u_ x_ tau_rec_ tau_fac_ t_lastspike_].
  destruct (d !! names.weight), (d !! names.dU); cbn;
    (destruct (bool_decide _); [reflexivity |]);
    destruct (d !! names.u); cbn;
    (destruct (bool_decide _); [reflexivity |]);
    destruct (d !! names.tau_rec); cbn;
    (destruct (bool_decide _); [reflexivity |]);
    destruct (d !! names.tau_fac); cbn;
    (destruct (bool_decide _); [reflexivity |]);
    destruct (d !! names.x); cbn;
    (destruct (bool_decide _); reflexivity).
Qed.

Lemma overridden_idem d n old :
  overridden d n (overridden d n old) = overridden d n old.
Proof. unfold overridden. destruct (d !! n); reflexivity. Qed.

Lemma overridden_absent d n old : d !! n = None -> overridden d n old = old.
Proof. unfold overridden. intros ->. reflexivity. Qed.

Lemma overridden_other_key d n n' v old :
  n' ≠ n -> overridden (<[n' := v]> d) n old = overridden d n old.
Proof. intros Hne. unfold overridden. rewrite lookup_insert_ne; [reflexivity | exact Hne]. Qed.

(** Case analysis on the five checks of [set_status d s]. *)
Ltac set_status_split d s :=
  rewrite (set_status_cases d s); cbv zeta;
  repeat case_bool_decide;
  cbn [fst snd weight_ U_ u_ x_ tau_rec_ tau_fac_ t_lastspike_].

(** Rejection of [U = 1.5] on the default-constructed object. *)
Example set_status_U_too_large :
  set_status {[ names.dU := 1.5 ]} tsodyks3_synapse_ctor =
    (Thrown (BadProperty "U must be in [0,1]."),
     assign_U_ 1.5 tsodyks3_synapse_ctor).
Proof.
  rewrite set_status_cases. cbv zeta.
  unfold overridden, names.dU, names.weight. rewrite lookup_singleton_eq.
  rewrite lookup_singleton_ne by discriminate.
  case_bool_decide as H; [reflexivity |].
  exfalso. apply H. left. cbn [from_option]. unfold Datatypes.id. lra.
Qed.

(** * Properties of [set_status] in double precision *)

(** ** The order of binary64 values *)

Lemma SFcompare_antisym (a b : spec_float) :
  SFcompare b a = option_map CompOpp (SFcompare a b).
Proof.
  destruct a as [sa | sa | | sa ma ea], b as [sb | sb | | sb mb eb];
    try destruct sa; try destruct sb; try reflexivity;
    cbn [SFcompare option_map];
    change (Pos.compare_cont Eq ma mb) with (Pos.compare ma mb);
    change (Pos.compare_cont Eq mb ma) with (Pos.compare mb ma);
    rewrite (Z.compare_antisym ea eb), (Pos.compare_antisym ma mb);
    destruct (ea ?= eb)%Z, (ma ?= mb)%positive; reflexivity.
Qed.

Lemma SFcompare_refl (a : spec_float) :
  SFcompare a a = match a with S754_nan => None | _ => Some Eq end.
Proof.
  destruct a as [sa | sa | | sa ma ea]; try destruct sa; try reflexivity;
    cbn [SFcompare];
    change (Pos.compare_cont Eq ma ma) with (Pos.compare ma ma);
    rewrite Z.compare_refl, Pos.compare_refl; reflexivity.
Qed.

Lemma SFcompare_None (a b : spec_float) :
  SFcompare a b = None <-> a = S754_nan \/ b = S754_nan.
Proof.
  destruct a as [sa | sa | | sa ma ea], b as [sb | sb | | sb mb eb];
    cbn [SFcompare]; split; intros H;
    try discriminate H; try (left; reflexivity); try (right; reflexivity);
    try reflexivity; destruct H as [H | H]; discriminate H.
Qed.

Lemma ltb_negb (x y : float) :
  negb (x <? y)%float = is_nan x || is_nan y || (y <=? x)%float.
Proof.
  unfold is_nan. rewrite ltb_spec, leb_spec, !FloatAxioms.eqb_spec.
  unfold SFltb, SFleb, SFeqb.
  rewrite (SFcompare_antisym (Prim2SF x) (Prim2SF y)), !SFcompare_refl.
  destruct (SFcompare (Prim2SF x) (Prim2SF y)) as [[ | | ] | ] eqn:Hc;
    [ | | | apply SFcompare_None in Hc as [-> | ->] ];
    destruct (Prim2SF x), (Prim2SF y); try discriminate Hc; reflexivity.
Qed.

Lemma leb_negb (x y : float) :
  negb (x <=? y)%float = is_nan x || is_nan y || (y <? x)%float.
Proof.
  unfold is_nan. rewrite ltb_spec, leb_spec, !FloatAxioms.eqb_spec.
  unfold SFltb, SFleb, SFeqb.
  rewrite (SFcompare_antisym (Prim2SF x) (Prim2SF y)), !SFcompare_refl.
  destruct (SFcompare (Prim2SF x) (Prim2SF y)) as [[ | | ] | ] eqn:Hc;
    [ | | | apply SFcompare_None in Hc as [-> | ->] ];
    destruct (Prim2SF x), (Prim2SF y); try discriminate Hc; reflexivity.
Qed.

(** The three kinds of check of [set_status], read as ranges. *)
Lemma check_unit_interval (v : float) :
  (Binary64.gtb v 1.0 || (v <? 0.0)%float)
  = negb (is_nan v || Binary64.in_unit_interval v).
Proof.
  unfold Binary64.gtb, Binary64.in_unit_interval.
  pose proof (ltb_negb 1 v) as H1. pose proof (ltb_negb v 0) as H0.
  change (is_nan 1) with false in H1. change (is_nan 0) with false in H0.
  destruct (1 <? v)%float, (v <? 0)%float, (is_nan v),
    (0 <=? v)%float, (v <=? 1)%float; cbn in *; congruence.
Qed.

Lemma check_positive (v : float) :
  (v <=? 0.0)%float = negb (is_nan v || (0 <? v)%float).
Proof.
  pose proof (leb_negb v 0) as H0. change (is_nan 0) with false in H0.
  destruct (v <=? 0)%float, (is_nan v), (0 <? v)%float; cbn in *; congruence.
Qed.

Lemma check_nonnegative (v : float) :
  (v <? 0.0)%float = negb (is_nan v || (0 <=? v)%float).
Proof.
  pose proof (ltb_negb v 0) as H0. change (is_nan 0) with false in H0.
  destruct (v <? 0)%float, (is_nan v), (0 <=? v)%float; cbn in *; congruence.
Qed.

(** A range holds of no NaN. *)
Lemma in_unit_interval_not_nan (v : float) :
  Binary64.in_unit_interval v = true -> is_nan v = false.
Proof.
  unfold Binary64.in_unit_interval. intros H.
  pose proof (leb_negb v 1) as H1.
  destruct (is_nan v); [| reflexivity].
  destruct (v <=? 1)%float; [discriminate H1 |].
  rewrite andb_false_r in H. discriminate H.
Qed.

(** The body of [Binary64.set_status] as one case analysis. *)
Lemma binary64_set_status_cases d s :
  let w := Binary64.overridden d names.weight (Binary64.weight_ s) in
  let U := Binary64.overridden d names.dU (Binary64.U_ s) in
  let u := Binary64.overridden d names.u (Binary64.u_ s) in
  let tr := Binary64.overridden d names.tau_rec (Binary64.tau_rec_ s) in
  let tf := Binary64.overridden d names.tau_fac (Binary64.tau_fac_ s) in
  let x := Binary64.overridden d names.x (Binary64.x_ s) in
  let tl := Binary64.t_lastspike_ s in
  Binary64.set_status d s =
    if (Binary64.gtb U 1.0 || (U <? 0.0)%float) then
      (Thrown (BadProperty "U must be in [0,1]."),
       Binary64.mk_tsodyks3_synapse w U (Binary64.u_ s) (Binary64.x_ s)
         (Binary64.tau_rec_ s) (Binary64.tau_fac_ s) tl)
    else if (Binary64.gtb u 1.0 || (u <? 0.0)%float) then
      (Thrown (BadProperty "u must be in [0,1]."),
       Binary64.mk_tsodyks3_synapse w U u (Binary64.x_ s)
         (Binary64.tau_rec_ s) (Binary64.tau_fac_ s) tl)
    else if (tr <=? 0.0)%float then
      (Thrown (BadProperty "tau_rec must be > 0."),
       Binary64.mk_tsodyks3_synapse w U u (Binary64.x_ s) tr (Binary64.tau_fac_ s) tl)
    else if (tf <? 0.0)%float then
      (Thrown (BadProperty "tau_fac must be >= 0."),
       Binary64.mk_tsodyks3_synapse w U u (Binary64.x_ s) tr tf tl)
    else if (Binary64.gtb x 1.0 || (x <? 0.0)%float) then
      (Thrown (BadProperty "x must be in [0,1]."),
       Binary64.mk_tsodyks3_synapse w U u x tr tf tl)
    else
      (Normal (), Binary64.mk_tsodyks3_synapse w U u x tr tf tl).
Proof.
  destruct s as [w0 U0 u0 x0 tr0 tf0 tl0].
  unfold Binary64.set_status, Binary64.overridden, Binary64.updateValue, mbind,
    Binary64.M_bind, Binary64.this, Binary64.throw_if, Binary64.throw, mret,
    Binary64.M_ret.
  cbn [Binary64.weight_ Binary64.U_ Binary64.u_ Binary64.x_ Binary64.tau_rec_
       Binary64.tau_fac_ Binary64.t_lastspike_].
  destruct (d !! names.weight), (d !! names.dU); cbn;
    (destruct (_ || _)%bool; [reflexivity |]);
    destruct (d !! names.u); cbn;
    (destruct (_ || _)%bool; [reflexivity |]);
    destruct (d !! names.tau_rec); cbn;
    (destruct (_ <=? _)%float; [reflexivity |]);
    destruct (d !! names.tau_fac); cbn;
    (destruct (_ <? _)%float; [reflexivity |]);
    destruct (d !! names.x); cbn;
    (destruct (_ || _)%bool; reflexivity).
Qed.

(** The object [Binary64.set_status] would leave if no check fired. *)
Lemma binary64_passes_checks_overridden d s :
  let s' :=
    Binary64.mk_tsodyks3_synapse
      (Binary64.overridden d names.weight (Binary64.weight_ s))
      (Binary64.overridden d names.dU (Binary64.U_ s))
      (Binary64.overridden d names.u (Binary64.u_ s))
      (Binary64.overridden d names.x (Binary64.x_ s))
      (Binary64.overridden d names.tau_rec (Binary64.tau_rec_ s))
      (Binary64.overridden d names.tau_fac (Binary64.tau_fac_ s))
      (Binary64.t_lastspike_ s) in
  (Binary64.set_status d s = (Normal (), s') /\ Binary64.passes_checks s' = true)
  \/ ((exists msg, fst (Binary64.set_status d s) = Thrown (BadProperty msg))
      /\ Binary64.passes_checks s' = false).
Proof.
  cbv zeta. rewrite binary64_set_status_cases. cbv zeta.
  unfold Binary64.passes_checks.
  cbn [Binary64.U_ Binary64.u_ Binary64.x_ Binary64.tau_rec_ Binary64.tau_fac_].
  rewrite !check_unit_interval, check_positive, check_nonnegative.
  repeat match goal with
         | |- context [negb ?b] => destruct b; cbn [negb andb fst]
         end;
    solve [ left; split; reflexivity
          | right; split; [eexists; reflexivity | reflexivity] ].
Qed.

(** C4, where the code departs from it.  A NaN fails none of the five
    comparisons: from the default-constructed object, [set_status] with
    a NaN for any one of the five checked members returns normally and
    leaves the NaN in the object, which then is outside the documented
    range of that member. *)
Theorem binary64_set_status_accepts_nan :
  let s0 := Binary64.tsodyks3_synapse_ctor in
  (Binary64.set_status {[ names.dU := nan ]} s0 = (Normal (), Binary64.assign_U_ nan s0)
   /\ Binary64.in_unit_interval nan = false) /\
  Binary64.set_status {[ names.u := nan ]} s0 = (Normal (), Binary64.assign_u_ nan s0) /\
  (Binary64.set_status {[ names.tau_rec := nan ]} s0
     = (Normal (), Binary64.assign_tau_rec_ nan s0)
   /\ (0 <? nan)%float = false) /\
  (Binary64.set_status {[ names.tau_fac := nan ]} s0
     = (Normal (), Binary64.assign_tau_fac_ nan s0)
   /\ (0 <=? nan)%float = false) /\
  Binary64.set_status {[ names.x := nan ]} s0 = (Normal (), Binary64.assign_x_ nan s0) /\
  Binary64.valid s0 = true /\
  Binary64.valid (snd (Binary64.set_status {[ names.dU := nan ]} s0)) = false.
Proof. vm_compute. repeat split; reflexivity. Qed.

(** C7. [set_status] assigns and checks in the order [weight_], [U_],
    [u_], [tau_rec_], [tau_fac_], [x_].  When the value a member takes
    fails its check and the checks before it did not fire, the call
    throws the message of that member; the members up to it hold their
    entries of the dictionary and the members after it hold the values
    they had before the call, whatever the dictionary has for them.
    When no check fires every entry is assigned.  [weight_] takes its
    entry in every case and has no check: no value of that entry, NaN
    and the infinities included, changes the completion. *)
Theorem binary64_set_status_order d s :
  let w := Binary64.overridden d names.weight (Binary64.weight_ s) in
  let U := Binary64.overridden d names.dU (Binary64.U_ s) in
  let u := Binary64.overridden d names.u (Binary64.u_ s) in
  let tr := Binary64.overridden d names.tau_rec (Binary64.tau_rec_ s) in
  let tf := Binary64.overridden d names.tau_fac (Binary64.tau_fac_ s) in
  let x := Binary64.overridden d names.x (Binary64.x_ s) in
  let tl := Binary64.t_lastspike_ s in
  let fails_unit v := (Binary64.gtb v 1.0 || (v <? 0.0)%float) in
  Binary64.weight_ (snd (Binary64.set_status d s)) = w /\
  (forall v : float,
     fst (Binary64.set_status (<[names.weight := v]> d) s)
     = fst (Binary64.set_status d s)) /\
  (fails_unit U = true ->
     Binary64.set_status d s =
       (Thrown (BadProperty "U must be in [0,1]."),
        Binary64.mk_tsodyks3_synapse w U (Binary64.u_ s) (Binary64.x_ s)
          (Binary64.tau_rec_ s) (Binary64.tau_fac_ s) tl)) /\
  (fails_unit U = false -> fails_unit u = true ->
     Binary64.set_status d s =
       (Thrown (BadProperty "u must be in [0,1]."),
        Binary64.mk_tsodyks3_synapse w U u (Binary64.x_ s)
          (Binary64.tau_rec_ s) (Binary64.tau_fac_ s) tl)) /\
  (fails_unit U = false -> fails_unit u = false -> (tr <=? 0.0)%float = true ->
     Binary64.set_status d s =
       (Thrown (BadProperty "tau_rec must be > 0."),
        Binary64.mk_tsodyks3_synapse w U u (Binary64.x_ s) tr
          (Binary64.tau_fac_ s) tl)) /\
  (fails_unit U = false -> fails_unit u = false -> (tr <=? 0.0)%float = false ->
   (tf <? 0.0)%float = true ->
     Binary64.set_status d s =
       (Thrown (BadProperty "tau_fac must be >= 0."),
        Binary64.mk_tsodyks3_synapse w U u (Binary64.x_ s) tr tf tl)) /\
  (fails_unit U = false -> fails_unit u = false -> (tr <=? 0.0)%float = false ->
   (tf <? 0.0)%float = false -> fails_unit x = true ->
     Binary64.set_status d s =
       (Thrown (BadProperty "x must be in [0,1]."),
        Binary64.mk_tsodyks3_synapse w U u x tr tf tl)) /\
  (fails_unit U = false -> fails_unit u = false -> (tr <=? 0.0)%float = false ->
   (tf <? 0.0)%float = false -> fails_unit x = false ->
     Binary64.set_status d s =
       (Normal (), Binary64.mk_tsodyks3_synapse w U u x tr tf tl)).
Proof.
  intros w U u tr tf x tl fails_unit.
  assert (forall n v old, n <> names.weight ->
            Binary64.overridden (<[names.weight := v]> d) n old
            = Binary64.overridden d n old) as Hother.
  { intros n v old Hne. unfold Binary64.overridden.
    rewrite lookup_insert_ne by congruence. reflexivity. }
  split; [| split].
  - rewrite binary64_set_status_cases. cbv zeta.
    repeat match goal with
           | |- context [if ?b then _ else _] => destruct b
           end; reflexivity.
  - intros v. rewrite !binary64_set_status_cases. cbv zeta.
    rewrite (Hother names.dU), (Hother names.u), (Hother names.tau_rec),
      (Hother names.tau_fac), (Hother names.x) by discriminate.
    repeat match goal with
           | |- context [if ?b then _ else _] => destruct b
           end; reflexivity.
  - subst w U u tr tf x tl fails_unit. cbv beta.
    rewrite binary64_set_status_cases. cbv zeta.
    repeat match goal with |- _ /\ _ => split end; intros;
      repeat match goal with
             | H : ?b = _ |- context [if ?b then _ else _] => rewrite H
             end; reflexivity.
Qed.

Lemma binary64_set_status_order_witness :
  let d : gmap string float :=
    {[ names.weight := (-3)%float; names.u := 0.25%float;
       names.tau_rec := 0%float; names.x := nan ]} in
  let s := Binary64.tsodyks3_synapse_ctor in
  Binary64.set_status d s =
    (Thrown (BadProperty "tau_rec must be > 0."),
     Binary64.mk_tsodyks3_synapse (-3) 0.5 0.25 1 0 0 0).
Proof.
  intros d s.
  destruct (binary64_set_status_order d s) as (_ & _ & _ & _ & Hrec & _).
  assert (Binary64.overridden d names.dU (Binary64.U_ s) = 0.5%float) as HU
    by (vm_compute; reflexivity).
  assert (Binary64.overridden d names.u (Binary64.u_ s) = 0.25%float) as Hu
    by (vm_compute; reflexivity).
  assert (Binary64.overridden d names.tau_rec (Binary64.tau_rec_ s) = 0%float) as Htr
    by (vm_compute; reflexivity).
  assert (Binary64.overridden d names.x (Binary64.x_ s) = nan) as Hx
    by (vm_compute; reflexivity).
  cbv zeta in Hrec. rewrite HU, Hu, Htr in Hrec.
  rewrite Hrec by (vm_compute; reflexivity).
  vm_compute. reflexivity.
Defined.

(** C8. [set_status] changes no member whose key is absent from the
    dictionary, whether it returns or throws, and never changes
    [t_lastspike_]. *)
Theorem set_status_frame d s :
  let s' := snd (set_status d s) in
  (d !! names.weight = None → weight_ s' = weight_ s) ∧
  (d !! names.dU = None → U_ s' = U_ s) ∧
  (d !! names.u = None → u_ s' = u_ s) ∧
  (d !! names.x = None → x_ s' = x_ s) ∧
  (d !! names.tau_rec = None → tau_rec_ s' = tau_rec_ s) ∧
  (d !! names.tau_fac = None → tau_fac_ s' = tau_fac_ s) ∧
  t_lastspike_ s' = t_lastspike_ s.
Proof.
  cbv zeta.
  repeat split; try intros Habsent;
    set_status_split d s;
    try rewrite (overridden_absent _ _ _ Habsent); reflexivity.
Qed.

Lemma set_status_frame_witness :
  let d : gmap string R := {[ names.u := 0.25; names.tau_fac := 50 ]} in
  let s := mk_tsodyks3_synapse 2 0.5 0.75 0.25 800 0 130 in
  let s' := snd (set_status d s) in
  weight_ s' = 2 /\ U_ s' = 0.5 /\ x_ s' = 0.25 /\ tau_rec_ s' = 800 /\
  t_lastspike_ s' = 130.
Proof.
  intros d s s'.
  destruct (set_status_frame d s) as (Hw & HU & _ & Hx & Hrec & _ & Ht).
  split; [exact (Hw eq_refl) |]. split; [exact (HU eq_refl) |].
  split; [exact (Hx eq_refl) |]. split; [exact (Hrec eq_refl) | exact Ht].
Defined.

(** C10. Calling [set_status] a second time with the same dictionary on
    the object the first call left gives the same completion and the
    same object as the first call; in particular, after a call that
    returned normally the second call returns normally and changes
    nothing. *)
Theorem set_status_idempotent d s :
  set_status d (snd (set_status d s)) = set_status d s ∧
  (fst (set_status d s) = Normal () →
     set_status d (snd (set_status d s)) = (Normal (), snd (set_status d s))).
Proof.
  assert (set_status d (snd (set_status d s)) = set_status d s) as Hsame.
  { set_status_split d s;
      rewrite set_status_cases; cbv zeta;
      cbn [weight_ U_ u_ x_ tau_rec_ tau_fac_ t_lastspike_];
      rewrite !overridden_idem;
      repeat case_bool_decide; solve [reflexivity | tauto]. }
  split; [exact Hsame |].
  intros Hnormal. rewrite Hsame.
  destruct (set_status d s) as [c s']. cbn [fst snd] in *. subst c. reflexivity.
Qed.

Lemma set_status_idempotent_witness :
  let d : gmap string R := {[ names.u := 0.25; names.tau_fac := 50 ]} in
  let s := mk_tsodyks3_synapse 2 0.5 0.75 0.25 800 0 130 in
  set_status d s = (Normal (), mk_tsodyks3_synapse 2 0.5 0.25 0.25 800 50 130) /\
  set_status d (snd (set_status d s)) =
    (Normal (), mk_tsodyks3_synapse 2 0.5 0.25 0.25 800 50 130).
Proof.
  intros d s.
  assert (set_status d s = (Normal (), mk_tsodyks3_synapse 2 0.5 0.25 0.25 800 50 130)) as Hfirst.
  { rewrite set_status_cases. cbv zeta.
    change (overridden d names.weight (weight_ s)) with 2.
    change (overridden d names.dU (U_ s)) with 0.5.
    change (overridden d names.u (u_ s)) with 0.25.
    change (overridden d names.tau_rec (tau_rec_ s)) with 800.
    change (overridden d names.tau_fac (tau_fac_ s)) with 50.
    change (overridden d names.x (x_ s)) with 0.25.
    repeat case_bool_decide; try reflexivity; exfalso; lra. }
  split; [exact Hfirst |].
  destruct (set_status_idempotent d s) as [_ Hnormal].
  rewrite Hnormal; rewrite Hfirst; reflexivity.
Defined.

(** * Further properties of [set_status] and [get_status] *)

Lemma synapse_eta (s : tsodyks3_synapse) :
  s = mk_tsodyks3_synapse (weight_ s) (U_ s) (u_ s) (x_ s) (tau_rec_ s)
        (tau_fac_ s) (t_lastspike_ s).
Proof. destruct s. reflexivity. Qed.

Lemma overridden_empty n old : overridden ∅ n old = old.
Proof. apply overridden_absent, lookup_empty. Qed.

Lemma overridden_present d n v old : d !! n = Some v -> overridden d n old = v.
Proof. unfold overridden. intros ->. reflexivity. Qed.

(** The five checks of [set_status], on the members of an object. *)
Lemma valid_iff_checks s :
  valid s <->
  ~ (U_ s > 1.0 ∨ U_ s < 0.0) /\ ~ (u_ s > 1.0 ∨ u_ s < 0.0) /\
  ~ tau_rec_ s <= 0.0 /\ ~ tau_fac_ s < 0.0 /\ ~ (x_ s > 1.0 ∨ x_ s < 0.0).
Proof.
  split.
  - intros [[? ?] [? ?] [? ?] ? ?]. repeat split; lra.
  - intros (HU & Hu & Hrec & Hfac & Hx).
    split; unfold in_unit_interval; lra.
Qed.

(** X1. With the empty dictionary [set_status] assigns nothing: the
    object is unchanged whether the call returns or throws, and the call
    returns normally exactly when each of [U_], [u_], [tau_rec_],
    [tau_fac_], [x_] is in its range or is a NaN, so a member that no
    entry touches is checked all the same. *)
Theorem binary64_set_status_empty s :
  snd (Binary64.set_status ∅ s) = s /\
  (fst (Binary64.set_status ∅ s) = Normal () <-> Binary64.passes_checks s = true).
Proof.
  assert (forall n old, Binary64.overridden ∅ n old = old) as Hempty.
  { intros n old. unfold Binary64.overridden. rewrite lookup_empty. reflexivity. }
  destruct (binary64_passes_checks_overridden ∅ s) as [[Hrun Hpass] | [[msg Hmsg] Hfail]];
    cbv zeta in *; rewrite !Hempty in *.
  - assert (Binary64.mk_tsodyks3_synapse (Binary64.weight_ s) (Binary64.U_ s)
              (Binary64.u_ s) (Binary64.x_ s) (Binary64.tau_rec_ s)
              (Binary64.tau_fac_ s) (Binary64.t_lastspike_ s) = s) as Heta
      by (destruct s; reflexivity).
    rewrite Heta in Hrun, Hpass. rewrite Hrun. cbn [fst snd].
    split; [reflexivity |]. split; [intros _; exact Hpass | reflexivity].
  - assert (Binary64.mk_tsodyks3_synapse (Binary64.weight_ s) (Binary64.U_ s)
              (Binary64.u_ s) (Binary64.x_ s) (Binary64.tau_rec_ s)
              (Binary64.tau_fac_ s) (Binary64.t_lastspike_ s) = s) as Heta
      by (destruct s; reflexivity).
    rewrite Heta in Hfail. rewrite Hmsg, Hfail.
    split; [| split; intros Heq; discriminate Heq].
    rewrite binary64_set_status_cases. cbv zeta. rewrite !Hempty, Heta.
    repeat match goal with
           | |- context [if ?b then _ else _] => destruct b
           end; reflexivity.
Qed.

(** X2. A call that returns normally leaves an object in which each of
    [U_], [u_], [tau_rec_], [tau_fac_], [x_] is in its range or is a
    NaN, whatever the object held before; when none of them is a NaN the
    object is valid. *)
Theorem binary64_set_status_normal d s :
  fst (Binary64.set_status d s) = Normal () ->
  let s' := snd (Binary64.set_status d s) in
  Binary64.passes_checks s' = true /\
  (is_nan (Binary64.U_ s') || is_nan (Binary64.u_ s')
   || is_nan (Binary64.tau_rec_ s') || is_nan (Binary64.tau_fac_ s')
   || is_nan (Binary64.x_ s') = false ->
   Binary64.valid s' = true).
Proof.
  intros Hnormal.
  destruct (binary64_passes_checks_overridden d s) as [[Hrun Hpass] | [[msg Hmsg] _]];
    cbv zeta in *; [| rewrite Hmsg in Hnormal; discriminate Hnormal].
  rewrite Hrun. cbn [snd].
  split; [exact Hpass |].
  revert Hpass. unfold Binary64.passes_checks, Binary64.valid.
  cbn [Binary64.U_ Binary64.u_ Binary64.x_ Binary64.tau_rec_ Binary64.tau_fac_].
  intros Hpass Hnan.
  repeat match type of Hnan with
         | (_ || _)%bool = false => apply orb_false_elim in Hnan as [Hnan ?]
         end.
  repeat match goal with
         | H : is_nan ?v = false |- _ => rewrite H in Hpass; clear H
         end.
  cbn [orb] in Hpass.
  repeat match type of Hpass with
         | (_ && _)%bool = true => apply andb_prop in Hpass as [Hpass ?]
         end.
  repeat match goal with
         | H : _ = true |- _ => rewrite H; clear H
         end.
  reflexivity.
Qed.

Lemma binary64_set_status_normal_witness :
  let d : gmap string float := {[ names.u := 0.25%float; names.tau_rec := 100%float ]} in
  let s := Binary64.mk_tsodyks3_synapse 2 0.5 7 0.25 (-1) 0 130 in
  Binary64.valid s = false /\
  Binary64.valid (snd (Binary64.set_status d s)) = true.
Proof.
  intros d s.
  assert (fst (Binary64.set_status d s) = Normal ()) as Hnormal
    by (vm_compute; reflexivity).
  destruct (binary64_set_status_normal d s Hnormal) as [_ Hvalid].
  split; [vm_compute; reflexivity |].
  apply Hvalid. vm_compute. reflexivity.
Defined.

(** X3. After a call that threw, the object fails the same check again:
    [set_status] with the empty dictionary throws the same exception and
    changes nothing, so the out-of-range member has to be overridden
    before any call can return normally. *)
Theorem set_status_throw_persists d s e :
  fst (set_status d s) = Thrown e ->
  set_status ∅ (snd (set_status d s)) = (Thrown e, snd (set_status d s)).
Proof.
  set_status_split d s; intros Hthrown; try discriminate Hthrown;
    injection Hthrown as <-;
    rewrite set_status_cases; cbv zeta; rewrite !overridden_empty;
    cbn [weight_ U_ u_ x_ tau_rec_ tau_fac_ t_lastspike_];
    repeat case_bool_decide; solve [reflexivity | tauto].
Qed.

Lemma set_status_throw_persists_witness :
  let d : gmap string R := {[ names.dU := 1.5 ]} in
  set_status ∅ (snd (set_status d tsodyks3_synapse_ctor)) =
    (Thrown (BadProperty "U must be in [0,1]."),
     snd (set_status d tsodyks3_synapse_ctor)).
Proof.
  intros d. apply set_status_throw_persists.
  subst d. rewrite set_status_U_too_large. reflexivity.
Defined.

Lemma overridden_union d1 d2 n old :
  overridden (d2 ∪ d1) n old = overridden d2 n (overridden d1 n old).
Proof.
  unfold overridden. rewrite lookup_union.
  destruct (d2 !! n), (d1 !! n); reflexivity.
Qed.

(** X5. Two calls that both return normally amount to one call with the
    merged dictionary, in which the entries of the second call win. *)
Theorem set_status_twice d1 d2 s :
  fst (set_status d1 s) = Normal () ->
  fst (set_status d2 (snd (set_status d1 s))) = Normal () ->
  set_status (d2 ∪ d1) s = set_status d2 (snd (set_status d1 s)).
Proof.
  rewrite (set_status_cases (d2 ∪ d1) s). cbv zeta. rewrite !overridden_union.
  set_status_split d1 s; intros Hfirst; try discriminate Hfirst;
    rewrite set_status_cases; cbv zeta;
    cbn [weight_ U_ u_ x_ tau_rec_ tau_fac_ t_lastspike_];
    repeat case_bool_decide; cbn [fst]; intros Hsecond;
    try discriminate Hsecond; solve [reflexivity | tauto].
Qed.

Lemma set_status_twice_witness :
  let d1 : gmap string R := {[ names.u := 0.25; names.tau_fac := 50 ]} in
  let d2 : gmap string R := {[ names.u := 0.5; names.x := 0.75 ]} in
  let s := mk_tsodyks3_synapse 2 0.5 0.75 0.25 800 0 130 in
  set_status (d2 ∪ d1) s = (Normal (), mk_tsodyks3_synapse 2 0.5 0.5 0.75 800 50 130).
Proof.
  intros d1 d2 s.
  assert (set_status d1 s = (Normal (), mk_tsodyks3_synapse 2 0.5 0.25 0.25 800 50 130)) as H1.
  { rewrite set_status_cases. cbv zeta.
    change (overridden d1 names.weight (weight_ s)) with 2.
    change (overridden d1 names.dU (U_ s)) with 0.5.
    change (overridden d1 names.u (u_ s)) with 0.25.
    change (overridden d1 names.tau_rec (tau_rec_ s)) with 800.
    change (overridden d1 names.tau_fac (tau_fac_ s)) with 50.
    change (overridden d1 names.x (x_ s)) with 0.25.
    repeat case_bool_decide; try reflexivity; exfalso; lra. }
  set (s1 := mk_tsodyks3_synapse 2 0.5 0.25 0.25 800 50 130) in *.
  assert (set_status d2 s1 = (Normal (), mk_tsodyks3_synapse 2 0.5 0.5 0.75 800 50 130)) as H2.
  { rewrite set_status_cases. cbv zeta.
    change (overridden d2 names.weight (weight_ s1)) with 2.
    change (overridden d2 names.dU (U_ s1)) with 0.5.
    change (overridden d2 names.u (u_ s1)) with 0.5.
    change (overridden d2 names.tau_rec (tau_rec_ s1)) with 800.
    change (overridden d2 names.tau_fac (tau_fac_ s1)) with 50.
    change (overridden d2 names.x (x_ s1)) with 0.75.
    repeat case_bool_decide; try reflexivity; exfalso; lra. }
  assert (fst (set_status d1 s) = Normal ()) as Hn1 by (rewrite H1; reflexivity).
  assert (fst (set_status d2 (snd (set_status d1 s))) = Normal ()) as Hn2
    by (rewrite H1; cbn [snd]; rewrite H2; reflexivity).
  rewrite (set_status_twice d1 d2 s Hn1 Hn2), H1. cbn [snd]. exact H2.
Defined.

(** The entries [get_status] writes, seen as overrides. *)
Lemma get_status_lookup n d s :
  let r := double_entries (get_status n d s) in
  r !! names.weight = Some (weight_ s) /\
  r !! names.dU = Some (U_ s) /\
  r !! names.u = Some (u_ s) /\
  r !! names.tau_rec = Some (tau_rec_ s) /\
  r !! names.tau_fac = Some (tau_fac_ s) /\
  r !! names.x = Some (x_ s).
Proof.
  cbv zeta. unfold double_entries, get_status, def. cbv zeta.
  repeat split; rewrite lookup_omap;
    repeat (rewrite lookup_insert_ne by discriminate);
    rewrite lookup_insert_eq; reflexivity.
Qed.

(** X6. The status read from a valid object can be applied to any
    object of the class: [set_status] returns normally and the six
    parameters become those of the source object, while [t_lastspike_]
    stays that of the target, since [get_status] does not report it.
    Applied to the object it was read from, it changes nothing. *)
Theorem get_status_set_status n d s s' :
  valid s ->
  set_status (double_entries (get_status n d s)) s' =
    (Normal (), assign_t_lastspike_ (t_lastspike_ s') s) /\
  set_status (double_entries (get_status n d s)) s = (Normal (), s).
Proof.
  intros Hv. apply valid_iff_checks in Hv.
  destruct (get_status_lookup n d s) as (Hw & HU & Hu & Hrec & Hfac & Hx).
  assert (forall s0, set_status (double_entries (get_status n d s)) s0 =
            (Normal (), assign_t_lastspike_ (t_lastspike_ s0) s)) as Hcopy.
  { intros s0. rewrite set_status_cases. cbv zeta.
    rewrite (overridden_present _ _ _ _ Hw), (overridden_present _ _ _ _ HU),
      (overridden_present _ _ _ _ Hu), (overridden_present _ _ _ _ Hrec),
      (overridden_present _ _ _ _ Hfac), (overridden_present _ _ _ _ Hx).
    repeat case_bool_decide; solve [reflexivity | tauto]. }
  split; [apply Hcopy |].
  rewrite Hcopy. f_equal. destruct s. reflexivity.
Qed.

Lemma get_status_set_status_witness :
  let s := mk_tsodyks3_synapse 2 0.5 0.75 0.25 800 50 130 in
  valid s /\
  set_status (double_entries (get_status 64 ∅ s)) tsodyks3_synapse_ctor =
    (Normal (), mk_tsodyks3_synapse 2 0.5 0.75 0.25 800 50 0.0).
Proof.
  intros s.
  assert (valid s) as Hv by (split; unfold in_unit_interval; subst s; cbn; lra).
  split; [exact Hv |].
  destruct (get_status_set_status 64 ∅ s tsodyks3_synapse_ctor Hv) as [Hcopy _].
  exact Hcopy.
Defined.

(** X7. What a call that returned normally has assigned can be read
    back: for each parameter key the dictionary has an entry for,
    [get_status] reports the value of that entry. *)
Theorem set_status_get_status n d0 d s k v :
  fst (set_status d s) = Normal () ->
  k ∈ parameter_keys ->
  d !! k = Some v ->
  get_status n d0 (snd (set_status d s)) !! k = Some (DoubleDatum v).
Proof.
  intros Hnormal Hk Hd.
  assert (snd (set_status d s) =
    mk_tsodyks3_synapse (overridden d names.weight (weight_ s))
      (overridden d names.dU (U_ s)) (overridden d names.u (u_ s))
      (overridden d names.x (x_ s)) (overridden d names.tau_rec (tau_rec_ s))
      (overridden d names.tau_fac (tau_fac_ s)) (t_lastspike_ s)) as ->.
  { revert Hnormal. set_status_split d s; intros Hn; try discriminate Hn; reflexivity. }
  unfold parameter_keys in Hk. rewrite !elem_of_cons in Hk.
  unfold get_status, def. cbv zeta.
  cbn [weight_ U_ u_ x_ tau_rec_ tau_fac_ t_lastspike_].
  destruct Hk as [-> | [-> | [-> | [-> | [-> | [-> | Hnil]]]]]];
    [ .. | apply elem_of_nil in Hnil; contradiction ];
    repeat (rewrite lookup_insert_ne by discriminate);
    rewrite lookup_insert_eq, (overridden_present _ _ _ _ Hd); reflexivity.
Qed.

Lemma set_status_get_status_witness :
  let d : gmap string R := {[ names.u := 0.25; names.tau_fac := 50 ]} in
  let s := mk_tsodyks3_synapse 2 0.5 0.75 0.25 800 0 130 in
  get_status 64 ∅ (snd (set_status d s)) !! names.tau_fac = Some (DoubleDatum 50).
Proof.
  intros d s.
  assert (fst (set_status d s) = Normal ()) as Hnormal.
  { rewrite set_status_cases. cbv zeta.
    change (overridden d names.dU (U_ s)) with 0.5.
    change (overridden d names.u (u_ s)) with 0.25.
    change (overridden d names.tau_rec (tau_rec_ s)) with 800.
    change (overridden d names.tau_fac (tau_fac_ s)) with 50.
    change (overridden d names.x (x_ s)) with 0.25.
    repeat case_bool_decide; try reflexivity; exfalso; lra. }
  assert (names.tau_fac ∈ parameter_keys) as Hk
    by (unfold parameter_keys; rewrite !elem_of_cons; tauto).
  exact (set_status_get_status 64 ∅ d s names.tau_fac 50 Hnormal Hk eq_refl).
Defined.

(** * Further properties of [send] *)

Lemma exp_le_compat (a b : R) : a <= b -> exp a <= exp b.
Proof.
  intros [Hlt | ->]; [left; apply exp_increasing; exact Hlt | right; reflexivity].
Qed.

(** [exp (- y) <= 1 / (1 + y)] for [y >= 0]. *)
Lemma exp_neg_le_inv (y : R) : 0 <= y -> exp (- y) <= / (1 + y).
Proof.
  intros Hy. rewrite exp_Ropp.
  apply Rinv_le_contravar; [lra | apply exp_ineq1_le].
Qed.

(** The members after the decay assignments and after the facilitation
    increment, for a valid object and a spike that is not in the past. *)
Lemma send_decayed_range s t_spike :
  valid s -> t_lastspike_ s <= t_spike ->
  x_ s <= x_ (send_decayed s t_spike) <= 1 /\
  0 <= u_ (send_decayed s t_spike) <= 1 /\
  (U_ s <= u_ s -> U_ s <= u_ (send_decayed s t_spike) <= u_ s).
Proof.
  intros [[HU0 HU1] [Hu0 Hu1] [Hx0 Hx1] Hrec Hfac] Hord.
  pose proof (x_decay_range s t_spike Hrec Hord) as Hxd.
  pose proof (u_decay_range s t_spike Hord) as Hud.
  unfold send_decayed. cbv zeta. read_members.
  repeat split; try intros Hge; nra.
Qed.

Lemma send_facilitated_range s t_spike :
  valid s -> t_lastspike_ s <= t_spike ->
  0 <= x_ (send_facilitated s t_spike) <= 1 /\
  U_ s <= u_ (send_facilitated s t_spike) <= 1 /\
  (U_ s <= u_ s -> U_ s + U_ s * (1 - U_ s) <= u_ (send_facilitated s t_spike)).
Proof.
  intros Hv Hord.
  destruct (send_decayed_range s t_spike Hv Hord) as (Hx & Hu & Hkeep).
  destruct Hv as [[HU0 HU1] [Hu0 Hu1] [Hx0 Hx1] Hrec Hfac].
  unfold send_facilitated. cbv zeta.
  change (x_ (assign_u_ ?v ?s0)) with (x_ s0).
  change (U_ (send_decayed s t_spike)) with (U_ s).
  unfold assign_u_ at 1 2 3. cbn [u_ x_].
  set (u1 := u_ (send_decayed s t_spike)) in *.
  set (x1 := x_ (send_decayed s t_spike)) in *.
  split; [lra |]. split; [nra |].
  intros Hge. specialize (Hkeep Hge). nra.
Qed.

(** X9. For a valid object and a spike not before [t_lastspike_], the
    weight of the delivered event is the base weight scaled by a factor
    in [0,1]: its magnitude never exceeds that of [weight_], and it has
    the sign of [weight_]. *)
Theorem send_weight_bounded cb e t s :
  valid s -> t_lastspike_ s <= stamp_ms e ->
  Rabs (ev_weight (fst (send cb e t s))) <= Rabs (weight_ s) /\
  (0 <= weight_ s -> 0 <= ev_weight (fst (send cb e t s)) <= weight_ s) /\
  (weight_ s <= 0 -> weight_ s <= ev_weight (fst (send cb e t s)) <= 0).
Proof.
  intros Hv Hord.
  destruct (send_facilitated_range s (stamp_ms e) Hv Hord) as (Hx & Hu & _).
  destruct Hv as [[HU0 HU1] _ _ _ _].
  rewrite send_program_points. cbv zeta. read_members.
  change (weight_ (send_facilitated s (stamp_ms e))) with (weight_ s).
  set (u2 := u_ (send_facilitated s (stamp_ms e))) in *.
  set (x1 := x_ (send_facilitated s (stamp_ms e))) in *.
  assert (0 <= x1 * u2 <= 1) as Hp by nra.
  rewrite Rmult_assoc. set (p := x1 * u2) in *.
  split; [| split; intros Hw; nra].
  unfold Rabs. destruct (Rcase_abs (weight_ s * p)), (Rcase_abs (weight_ s)); nra.
Qed.

Lemma send_weight_bounded_witness :
  let cb := mk_ConnectionBase (λ _, 7%Z) 1 0 in
  let s := mk_tsodyks3_synapse (-2) 0.5 0.75 0.25 800 50 130 in
  -2 <= ev_weight (fst (send cb (spike_at 140) 0%Z s)) <= 0.
Proof.
  intros cb s.
  assert (valid s) as Hv by (split; unfold in_unit_interval; subst s; cbn; lra).
  assert (t_lastspike_ s <= stamp_ms (spike_at 140)) as Hord by (subst s; cbn; lra).
  destruct (send_weight_bounded cb (spike_at 140) 0%Z s Hv Hord) as (_ & _ & Hneg).
  apply Hneg. subst s. cbn. lra.
Defined.

(** X10. After every spike on a valid object, [u_] is at least [U_] and
    [x_] is at most [1 - U_]: each release uses at least the fraction
    [U_] of what is available.  When [u_] was at least [U_] before the
    call, as it is after construction and after every spike, it is at
    least [U_ + U_ * (1 - U_)] after it. *)
Theorem send_release_bounds cb e t s :
  valid s -> t_lastspike_ s <= stamp_ms e ->
  U_ s <= u_ (snd (send cb e t s)) /\
  x_ (snd (send cb e t s)) <= 1 - U_ s /\
  (U_ s <= u_ s -> U_ s + U_ s * (1 - U_ s) <= u_ (snd (send cb e t s))).
Proof.
  intros Hv Hord.
  destruct (send_facilitated_range s (stamp_ms e) Hv Hord) as (Hx & Hu & Hfloor).
  rewrite send_program_points. cbv zeta. read_members.
  set (u2 := u_ (send_facilitated s (stamp_ms e))) in *.
  set (x1 := x_ (send_facilitated s (stamp_ms e))) in *.
  split; [lra |]. split; [nra | exact Hfloor].
Qed.

Lemma send_release_bounds_witness :
  let cb := mk_ConnectionBase (λ _, 7%Z) 1 0 in
  let s := mk_tsodyks3_synapse 2 0.5 0.75 1 800 50 130 in
  0.5 <= u_ (snd (send cb (spike_at 140) 0%Z s)) /\
  x_ (snd (send cb (spike_at 140) 0%Z s)) <= 1 - 0.5 /\
  0.5 + 0.5 * (1 - 0.5) <= u_ (snd (send cb (spike_at 140) 0%Z s)).
Proof.
  intros cb s.
  assert (valid s) as Hv by (split; unfold in_unit_interval; subst s; cbn; lra).
  assert (t_lastspike_ s <= stamp_ms (spike_at 140)) as Hord by (subst s; cbn; lra).
  destruct (send_release_bounds cb (spike_at 140) 0%Z s Hv Hord) as (Hu & Hx & Hfloor).
  split; [exact Hu |]. split; [exact Hx |].
  apply Hfloor. subst s. cbn. lra.
Defined.

Lemma x_decay_antitone s t1 t2 :
  0 < tau_rec_ s -> t1 <= t2 -> x_decay s t2 <= x_decay s t1.
Proof.
  intros Hrec Hle. unfold x_decay, h_of. apply exp_le_compat.
  unfold Rdiv. assert (0 < / tau_rec_ s) by (apply Rinv_0_lt_compat; exact Hrec).
  nra.
Qed.

(** X11. Recovery is monotone in the time of the spike: on a valid
    object, of two spikes not before [t_lastspike_] the later one finds
    at least as much [x_] after the decay step.  When facilitation is
    off ([tau_fac_ < 1.0e-10]) and [weight_] is not negative, the later
    spike is also delivered with at least the weight of the earlier. *)
Theorem send_later_spike_recovers_more cb e1 e2 t s :
  valid s ->
  t_lastspike_ s <= stamp_ms e1 -> stamp_ms e1 <= stamp_ms e2 ->
  x_ (send_decayed s (stamp_ms e1)) <= x_ (send_decayed s (stamp_ms e2)) /\
  (tau_fac_ s < 1.0e-10 -> 0 <= weight_ s ->
     ev_weight (fst (send cb e1 t s)) <= ev_weight (fst (send cb e2 t s))).
Proof.
  intros Hv Hord Hle.
  pose proof (x_decay_antitone s _ _ (valid_tau_rec _ Hv) Hle) as Hanti.
  destruct Hv as [[HU0 HU1] [Hu0 Hu1] [Hx0 Hx1] Hrec Hfac].
  assert (1 + (x_ s - 1) * x_decay s (stamp_ms e1)
          <= 1 + (x_ s - 1) * x_decay s (stamp_ms e2)) as Hx by nra.
  split; [exact Hx |].
  intros Hoff Hw.
  destruct (send_result cb e1 t s) as (-> & _).
  destruct (send_result cb e2 t s) as (-> & _).
  rewrite !(u_decay_small s _ Hoff).
  set (xa := 1 + (x_ s - 1) * x_decay s (stamp_ms e1)) in *.
  set (xb := 1 + (x_ s - 1) * x_decay s (stamp_ms e2)) in *.
  assert (0 <= U_ s + (u_ s - U_ s) * 0 + U_ s * (1 - (U_ s + (u_ s - U_ s) * 0))) as Hu2 by nra.
  set (u2 := U_ s + (u_ s - U_ s) * 0 + U_ s * (1 - (U_ s + (u_ s - U_ s) * 0))) in *.
  apply Rmult_le_compat_r; [exact Hu2 |].
  apply Rmult_le_compat_l; [exact Hw | exact Hx].
Qed.

Lemma send_later_spike_recovers_more_witness :
  let cb := mk_ConnectionBase (λ _, 7%Z) 1 0 in
  let s := mk_tsodyks3_synapse 2 0.5 0.75 0.25 800 0 130 in
  x_ (send_decayed s 140) <= x_ (send_decayed s 150) /\
  ev_weight (fst (send cb (spike_at 140) 0%Z s)) <=
    ev_weight (fst (send cb (spike_at 150) 0%Z s)).
Proof.
  intros cb s.
  assert (valid s) as Hv by (split; unfold in_unit_interval; subst s; cbn; lra).
  assert (t_lastspike_ s <= stamp_ms (spike_at 140)) as Hord by (subst s; cbn; lra).
  assert (stamp_ms (spike_at 140) <= stamp_ms (spike_at 150)) as Hle by (cbn; lra).
  destruct (send_later_spike_recovers_more cb (spike_at 140) (spike_at 150) 0%Z s
              Hv Hord Hle) as [Hx Hw].
  split; [exact Hx |].
  apply Hw; subst s; read_members; lra.
Defined.

(** X12. Full recovery between widely spaced spikes: on a valid object,
    for every tolerance there is an interval after which a spike finds
    [x_] within the tolerance of 1 and [u_] within the tolerance of [U_]
    after the decay step. *)
Theorem send_decayed_limit s eps :
  valid s -> 0 < eps ->
  exists H : R, 0 <= H /\
    forall t_spike, H < t_spike - t_lastspike_ s ->
      Rabs (x_ (send_decayed s t_spike) - 1) < eps /\
      Rabs (u_ (send_decayed s t_spike) - U_ s) < eps.
Proof.
  intros [[HU0 HU1] [Hu0 Hu1] [Hx0 Hx1] Hrec Hfac] Heps.
  assert (0 < / eps) as Hinv by (apply Rinv_0_lt_compat; exact Heps).
  exists ((tau_rec_ s + tau_fac_ s) / eps).
  split; [unfold Rdiv; nra |].
  intros t_spike Hlong.
  assert (forall tau, 0 < tau -> tau <= tau_rec_ s + tau_fac_ s ->
            0 < exp (- h_of s t_spike / tau) < eps) as Hsmall.
  { intros tau Htau Hbound.
    assert (0 < / tau) as Htinv by (apply Rinv_0_lt_compat; exact Htau).
    assert (tau / eps < h_of s t_spike) as Hh.
    { unfold h_of. apply Rle_lt_trans with ((tau_rec_ s + tau_fac_ s) / eps);
        [unfold Rdiv; nra | exact Hlong]. }
    assert (/ eps < h_of s t_spike / tau) as Hy.
    { apply (Rmult_lt_reg_r tau); [exact Htau |].
      unfold Rdiv in *. rewrite Rmult_assoc, Rinv_l by lra. lra. }
    split; [apply exp_pos |].
    replace (- h_of s t_spike / tau) with (- (h_of s t_spike / tau))
      by (unfold Rdiv; ring).
    apply Rle_lt_trans with (/ (1 + h_of s t_spike / tau));
      [apply exp_neg_le_inv; lra |].
    rewrite <- (Rinv_inv eps).
    apply Rinv_lt_contravar; [| lra].
    apply Rmult_lt_0_compat; lra. }
  unfold send_decayed. cbv zeta. read_members.
  split.
  - pose proof (Hsmall (tau_rec_ s) Hrec ltac:(lra)) as Hd.
    fold (h_of s t_spike) in Hd. fold (x_decay s t_spike) in Hd.
    apply Rabs_def1; nra.
  - unfold u_decay. case_decide as Hoff.
    + apply Rabs_def1; lra.
    + pose proof (Hsmall (tau_fac_ s) ltac:(lra) ltac:(lra)) as Hd.
      apply Rabs_def1; nra.
Qed.

Lemma send_decayed_limit_witness :
  exists H : R, 0 <= H /\
    forall t_spike, H < t_spike - t_lastspike_ tsodyks3_synapse_ctor ->
      Rabs (x_ (send_decayed tsodyks3_synapse_ctor t_spike) - 1) < 0.001 /\
      Rabs (u_ (send_decayed tsodyks3_synapse_ctor t_spike)
            - U_ tsodyks3_synapse_ctor) < 0.001.
Proof.
  apply send_decayed_limit; [| lra].
  split; unfold in_unit_interval, tsodyks3_synapse_ctor; cbn; lra.
Defined.

(** X13. [weight_] only scales the delivered event: setting it with
    [set_weight] before a spike has the same effect on the object as
    setting it after, so [u_], [x_] and [t_lastspike_] evolve as they
    would with any other weight, and the delivered weight is linear in
    it. *)
Theorem set_weight_send cb e t s w :
  snd (send cb e t (set_weight w s)) = set_weight w (snd (send cb e t s)) /\
  ev_weight (fst (send cb e t (set_weight (w * weight_ s) s))) =
    w * ev_weight (fst (send cb e t s)) /\
  ev_weight (fst (send cb e t (set_weight 0 s))) = 0.
Proof.
  split; [reflexivity |].
  destruct (send_result cb e t s) as (-> & _).
  destruct (send_result cb e t (set_weight (w * weight_ s) s)) as (-> & _).
  destruct (send_result cb e t (set_weight 0 s)) as (-> & _).
  change (x_decay (set_weight ?v s) ?ts) with (x_decay s ts).
  change (u_decay (set_weight ?v s) ?ts) with (u_decay s ts).
  read_members. split; ring.
Qed.

(** X14. The bounds of [U_].  With [U_ = 1] every spike releases all
    that is available: [u_] is 1 and [x_] is 0 after the call, and the
    event carries [weight_] times the recovered [x_].  With [U_ = 0] and
    facilitation off nothing is released: the event has weight 0 and
    [x_] keeps its recovered value. *)
Theorem send_U_at_bounds cb e t s :
  (U_ s = 1 ->
     u_ (snd (send cb e t s)) = 1 /\
     x_ (snd (send cb e t s)) = 0 /\
     ev_weight (fst (send cb e t s)) =
       weight_ s * x_ (send_decayed s (stamp_ms e))) /\
  (U_ s = 0 -> tau_fac_ s < 1.0e-10 ->
     u_ (snd (send cb e t s)) = 0 /\
     x_ (snd (send cb e t s)) = x_ (send_decayed s (stamp_ms e)) /\
     ev_weight (fst (send cb e t s)) = 0).
Proof.
  destruct (send_result cb e t s) as (Hw & Hx & Hu & _).
  rewrite Hw, Hx, Hu.
  change (x_ (send_decayed s (stamp_ms e)))
    with (1 + (x_ s - 1) * x_decay s (stamp_ms e)).
  split.
  - intros ->. repeat split; ring.
  - intros -> Hoff. rewrite (u_decay_small s _ Hoff). repeat split; ring.
Qed.

Lemma send_U_at_bounds_witness :
  let cb := mk_ConnectionBase (λ _, 7%Z) 1 0 in
  let s := mk_tsodyks3_synapse 2 1 0.75 0.25 800 50 130 in
  u_ (snd (send cb (spike_at 140) 0%Z s)) = 1 /\
  x_ (snd (send cb (spike_at 140) 0%Z s)) = 0.
Proof.
  intros cb s.
  destruct (send_U_at_bounds cb (spike_at 140) 0%Z s) as [Hone _].
  destruct (Hone eq_refl) as (Hu & Hx & _).
  split; [exact Hu | exact Hx].
Defined.

(** The decay factors see the two times only through their difference. *)
Lemma decay_factors_interval s t_spike tl' t_spike' :
  t_spike' - tl' = t_spike - t_lastspike_ s ->
  x_decay (assign_t_lastspike_ tl' s) t_spike' = x_decay s t_spike /\
  u_decay (assign_t_lastspike_ tl' s) t_spike' = u_decay s t_spike.
Proof.
  intros Hh. unfold x_decay, u_decay, h_of. read_members. rewrite Hh.
  split; reflexivity.
Qed.

(** X16. [send] uses the stamp of the spike and [t_lastspike_] only
    through their difference: two calls with the same interval since
    the last spike, on objects that agree on the other members, deliver
    the same weight and leave the same [u_] and [x_]. *)
Theorem send_depends_on_interval cb e e' t s tl' :
  stamp_ms e' - tl' = stamp_ms e - t_lastspike_ s ->
  let s' := assign_t_lastspike_ tl' s in
  ev_weight (fst (send cb e' t s')) = ev_weight (fst (send cb e t s)) /\
  u_ (snd (send cb e' t s')) = u_ (snd (send cb e t s)) /\
  x_ (snd (send cb e' t s')) = x_ (snd (send cb e t s)).
Proof.
  intros Hh s'.
  destruct (decay_factors_interval s (stamp_ms e) tl' (stamp_ms e') Hh) as [Hxd Hud].
  destruct (send_result cb e' t s') as (-> & -> & -> & _).
  destruct (send_result cb e t s) as (-> & -> & -> & _).
  subst s'. rewrite Hxd, Hud. read_members.
  repeat split; reflexivity.
Qed.

Lemma send_depends_on_interval_witness :
  let cb := mk_ConnectionBase (λ _, 7%Z) 1 0 in
  let s := mk_tsodyks3_synapse 2 0.5 0.75 0.25 800 50 130 in
  ev_weight (fst (send cb (spike_at 1140) 0%Z (assign_t_lastspike_ 1130 s))) =
  ev_weight (fst (send cb (spike_at 140) 0%Z s)).
Proof.
  intros cb s.
  assert (stamp_ms (spike_at 1140) - 1130 = stamp_ms (spike_at 140) - t_lastspike_ s)
    as Hh by (subst s; cbn [stamp_ms spike_at t_lastspike_]; lra).
  destruct (send_depends_on_interval cb (spike_at 140) (spike_at 1140) 0%Z s 1130 Hh)
    as (Hw & _).
  exact Hw.
Defined.
